(** * Verification of the classification core of the Streamlit chatbot (src/app.py)

    Python [str] values are modelled as [list ascii]: code points 0..255
    (ASCII and Latin-1), with Python's [str.isspace], [str.lower] and
    [str.splitlines] on that range written out. The Mistral client is an
    arbitrary oracle over the history of requests; exceptions are a sum. *)

From Stdlib Require Import List Ascii String Bool Arith Lia.
Import ListNotations.

Open Scope list_scope.

(** ** Python strings *)

Definition pystr := list ascii.

(** Literal conversion: [str "abc"] is the Python literal ["abc"]. *)
Definition str (s : string) : pystr := list_ascii_of_string s.

Definition chr (n : nat) : ascii := ascii_of_nat n.

(** [str.isspace] on code points 0..255:
    \t \n \v \f \r, \x1c-\x1f, space, \x85 and \xa0. *)
Definition isspace (c : ascii) : bool :=
  let n := nat_of_ascii c in
  ((9 <=? n) && (n <=? 13)) || ((28 <=? n) && (n <=? 32)) || (n =? 133) || (n =? 160).

(** [str.lower] on code points 0..255: A-Z and the Latin-1 capitals
    \xc0-\xde except the multiplication sign \xd7. *)
Definition lower_char (c : ascii) : ascii :=
  let n := nat_of_ascii c in
  if ((65 <=? n) && (n <=? 90)) || ((192 <=? n) && (n <=? 222) && negb (n =? 215))
  then ascii_of_nat (n + 32) else c.

Definition lower (s : pystr) : pystr := map lower_char s.

(** [str.lstrip()], [str.rstrip()] and [str.strip()] without arguments. *)
Fixpoint lstrip (s : pystr) : pystr :=
  match s with
  | [] => []
  | c :: r => if isspace c then lstrip r else s
  end.

Definition rstrip (s : pystr) : pystr := rev (lstrip (rev s)).

Definition strip (s : pystr) : pystr := rstrip (lstrip s).

(** [re.sub(r"\s+", " ", s)]: every maximal run of whitespace becomes one
    space; [inrun] records that the previous character was whitespace. *)
Fixpoint collapse_ws (inrun : bool) (s : pystr) : pystr :=
  match s with
  | [] => []
  | c :: r =>
      if isspace c
      then if inrun then collapse_ws true r else " "%char :: collapse_ws true r
      else c :: collapse_ws false r
  end.

(** [def normalize_text(s): return re.sub(r"\s+", " ", s.strip().lower())] *)
Definition normalize_text (s : pystr) : pystr :=
  collapse_ws false (lower (strip s)).

(** Line boundaries of [str.splitlines] on code points 0..255:
    \n \v \f \r \x1c \x1d \x1e \x85. *)
Definition is_linebreak (c : ascii) : bool :=
  let n := nat_of_ascii c in
  ((10 <=? n) && (n <=? 13)) || ((28 <=? n) && (n <=? 30)) || (n =? 133).

(** [str.splitlines()] (keepends=False); [cur] is the current line reversed.
    "\r\n" is one boundary; no empty line is produced after a final
    boundary, and [""] has no lines at all. *)
Fixpoint splitlines_aux (cur : pystr) (s : pystr) : list pystr :=
  match s with
  | [] => match cur with [] => [] | _ => [rev cur] end
  | c :: r =>
      if Ascii.eqb c "013"%char then
        match r with
        | c' :: r' => if Ascii.eqb c' "010"%char then rev cur :: splitlines_aux [] r'
                      else rev cur :: splitlines_aux [] r
        | [] => [rev cur]
        end
      else if is_linebreak c then rev cur :: splitlines_aux [] r
      else splitlines_aux (c :: cur) r
  end.

Definition splitlines (s : pystr) : list pystr := splitlines_aux [] s.

(** [str.split()] without arguments: fields separated by whitespace runs,
    no empty fields. *)
Fixpoint split_aux (cur : pystr) (s : pystr) : list pystr :=
  match s with
  | [] => match cur with [] => [] | _ => [rev cur] end
  | c :: r =>
      if isspace c
      then match cur with [] => split_aux [] r | _ => rev cur :: split_aux [] r end
      else split_aux (c :: cur) r
  end.

Definition py_split (s : pystr) : list pystr := split_aux [] s.

(** String equality and [x in lst] for a list of strings. *)
Definition str_eqb (a b : pystr) : bool :=
  if list_eq_dec ascii_dec a b then true else false.

Definition py_in_list (x : pystr) (l : list pystr) : bool :=
  existsb (str_eqb x) l.

(** Substring test [sub in s]. *)
Fixpoint is_prefix (p s : pystr) : bool :=
  match p, s with
  | [], _ => true
  | a :: p', b :: s' => Ascii.eqb a b && is_prefix p' s'
  | _ :: _, [] => false
  end.

Fixpoint py_contains (s sub : pystr) : bool :=
  is_prefix sub s || match s with [] => false | _ :: s' => py_contains s' sub end.

(** ** Constants of src/app.py *)

Definition nl : pystr := [chr 10].
Definition line (s : string) : pystr := str s ++ nl.

Definition ALLOWED_CATEGORIES : list pystr :=
  map str ["card arrival"; "change pin"; "exchange rate"; "country support";
           "cancel transfer"; "charge dispute"; "customer service"]%string.

Definition customer_service : pystr := str "customer service".

(** [CLASSIFY_PROMPT.format(q=inquiry)] *)
Definition classify_prompt (q : pystr) : pystr :=
  nl ++ line "You are a bank customer service bot."
     ++ line "Classify the bank inquiry into ONE category only:"
     ++ line "card arrival" ++ line "change pin" ++ line "exchange rate"
     ++ line "country support" ++ line "cancel transfer" ++ line "charge dispute"
     ++ line "customer service" ++ nl
     ++ line "Return ONLY the category text. No explanations." ++ nl
     ++ str "Inquiry: " ++ q ++ nl ++ line "Category:".

Definition KB : list (pystr * pystr) :=
  map (fun p => (str (fst p), str (snd p)))
  [("card arrival", "Track delivery in Cards > Track delivery. Request replacement if overdue.");
   ("change pin", "Go to Cards > Manage card > Change PIN.");
   ("exchange rate", "Exchange rate depends on network rate plus bank fee. Tell me the currencies.");
   ("country support", "Most countries are supported. Tell me your destination.");
   ("cancel transfer", "If pending, cancel in Transfers > Activity.");
   ("charge dispute", "Open transaction > Dispute charge. Provide date, merchant, and reason.");
   ("customer service", "Tell me your issue and I will guide you.")]%string.

(** Dictionary lookup [KB.get(k)]. *)
Fixpoint kb_lookup (k : pystr) (kb : list (pystr * pystr)) : option pystr :=
  match kb with
  | [] => None
  | (k', v) :: kb' => if str_eqb k k' then Some v else kb_lookup k kb'
  end.

(** [KB.get(cat, KB["customer service"])]; the key "customer service" is
    present in [KB], so the inner [KB[...]] never raises. *)
Definition kb_get (cat : pystr) : pystr :=
  match kb_lookup cat KB with
  | Some g => g
  | None => match kb_lookup customer_service KB with Some g => g | None => [] end
  end.

Definition GREETINGS : list pystr :=
  map str ["hi"; "hello"; "hey"; "yo"; "good morning"; "good afternoon";
           "good evening"]%string.

(** ** Exceptions and the completion service *)

Inductive exn : Type :=
| TypeError
| IndexError
| AttributeError
| KeyError
| APIError (code : nat).

(** One call of [client.chat.complete]: the prompt of its single user
    message, and whether [response_format={"type": "json_object"}] is passed. *)
Record request : Type := mkRequest { rq_prompt : pystr; rq_json : bool }.

(** What the client does on a call: raise, or return a response whose
    [choices] carry a [message.content] that may be [None]. *)
Inductive outcome : Type :=
| Raise (e : exn)
| Return (choices : list (option pystr)).

(** The service may answer each call depending on all earlier calls. *)
Definition service : Type := list request -> request -> outcome.

(** Computations that call the service: the log of calls made so far is
    threaded through, and the result is an exception or a value. *)
Definition M (A : Type) : Type := list request -> list request * (exn + A).

Definition ret {A} (a : A) : M A := fun log => (log, inr a).
Definition throw {A} (e : exn) : M A := fun log => (log, inl e).
Definition bind {A B} (m : M A) (k : A -> M B) : M B :=
  fun log => match m log with
             | (log', inl e) => (log', inl e)
             | (log', inr a) => k a log'
             end.
(** [try: m except ...: h(e)] *)
Definition try_with {A} (m : M A) (h : exn -> M A) : M A :=
  fun log => match m log with
             | (log', inl e) => h e log'
             | (log', inr a) => (log', inr a)
             end.
Definition lift {A} (r : exn + A) : M A :=
  match r with inl e => throw e | inr a => ret a end.

Notation "x <- m ;; k" := (bind m (fun x => k))
  (at level 61, m at next level, right associativity).

Definition complete (svc : service) (rq : request) : M (list (option pystr)) :=
  fun log => (log ++ [rq],
              match svc log rq with Raise e => inl e | Return cs => inr cs end).

(** [mistral_chat(prompt, is_json)]: a [TypeError] makes it call again
    without [response_format]; then [r.choices[0].message.content]. *)
Definition mistral_chat (svc : service) (prompt : pystr) (is_json : bool)
  : M (option pystr) :=
  r <- try_with (complete svc (mkRequest prompt is_json))
                (fun e => match e with
                          | TypeError => complete svc (mkRequest prompt false)
                          | _ => throw e
                          end);;
  match r with
  | [] => throw IndexError
  | c :: _ => ret c
  end.

(** ** parse_category and classify_intent *)

(** [parse_category(raw)]; [r.splitlines()[0]] raises [IndexError] when
    [r] has no line. *)
Definition parse_category (raw : pystr) : exn + pystr :=
  let r := normalize_text raw in
  match splitlines r with
  | [] => inl IndexError
  | l :: _ =>
      let first_line := strip l in
      if py_in_list first_line ALLOWED_CATEGORIES then inr first_line
      else match find (fun cat => py_contains r cat) ALLOWED_CATEGORIES with
           | Some cat => inr cat
           | None => inr customer_service
           end
  end.

(** Python calls [normalize_text] on [message.content]; on [None] that is
    [None.strip()], an [AttributeError]. *)
Definition parse_content (raw : option pystr) : M pystr :=
  match raw with
  | None => throw AttributeError
  | Some s => lift (parse_category s)
  end.

Definition classify_intent (svc : service) (inquiry : pystr) : M pystr :=
  let q := normalize_text inquiry in
  if (List.length (py_split q) <=? 2) || py_in_list q GREETINGS
  then ret customer_service
  else try_with (raw <- mistral_chat svc (classify_prompt inquiry) false;;
                 parse_content raw)
                (fun _ => ret customer_service).

(** ** The send handler *)

(** The answer prompt of the send handler (f-string). *)
Definition answer_prompt (guidance inquiry : pystr) : pystr :=
  nl ++ line "You are a helpful bank support assistant."
     ++ line "Answer using ONLY the guidance below."
     ++ line "Keep it short and clear." ++ nl
     ++ line "Guidance:" ++ guidance ++ nl ++ nl
     ++ line "Customer question:" ++ inquiry ++ nl ++ nl
     ++ line "Answer:".

(** [try: answer = mistral_chat(prompt).strip() except Exception: answer = guidance] *)
Definition compose_answer (svc : service) (cat inquiry : pystr) : M pystr :=
  let guidance := kb_get cat in
  try_with (a <- mistral_chat svc (answer_prompt guidance inquiry) false;;
            match a with
            | None => throw AttributeError
            | Some s => ret (strip s)
            end)
           (fun _ => ret guidance).

Inductive role : Type := User | Assistant.

(** An item of [st.session_state.chat_history]: ["role"], ["text"] and the
    optional ["cat"]. *)
Record turn : Type := mkTurn { t_role : role; t_text : pystr; t_cat : option pystr }.

Record session : Type := mkSession {
  chat_history : list turn;
  pending_text : pystr;
  draft_version : nat
}.

Definition bump_draft (st : session) : session :=
  mkSession (chat_history st) (pending_text st) (S (draft_version st)).

(** [if send and msg.strip(): ...] *)
Definition on_send (svc : service) (send : bool) (msg : pystr) (st : session)
  : M session :=
  if send && negb (match strip msg with [] => true | _ => false end) then
    let inquiry := strip msg in
    cat <- classify_intent svc inquiry;;
    answer <- compose_answer svc cat inquiry;;
    ret (bump_draft
           (mkSession (chat_history st ++ [mkTurn User inquiry None;
                                           mkTurn Assistant answer (Some cat)])
                      (pending_text st) (draft_version st)))
  else ret st.

(** The Clear button. *)
Definition on_clear (st : session) : session :=
  bump_draft (mkSession [] (pending_text st) (draft_version st)).

(** ** Specification-side matcher (for the refinement claim)

    Written from the words of the claim: exact match of the whole
    normalized response, else the first allowed category occurring in it,
    else "customer service". *)
Definition parse_category_simple (raw : pystr) : pystr :=
  let r := normalize_text raw in
  if py_in_list r ALLOWED_CATEGORIES then r
  else match find (fun cat => py_contains r cat) ALLOWED_CATEGORIES with
       | Some cat => cat
       | None => customer_service
       end.

(** ** API key and startup *)

(** What [st.secrets] gives for ["MISTRAL_API_KEY"]: reading the secrets
    may raise (no secrets file), the key may be absent, or present. *)
Inductive secrets_access : Type :=
| SecretsUnavailable (e : exn)
| SecretsMissingKey
| SecretsHasKey (v : pystr).

(** [get_api_key()]: the secret, stripped, when the key is in
    [st.secrets]; otherwise [os.getenv("MISTRAL_API_KEY", "").strip()]. *)
Definition get_api_key (sec : secrets_access) (env : option pystr) : pystr :=
  match sec with
  | SecretsHasKey v => strip v
  | _ => strip (match env with Some v => v | None => [] end)
  end.

(** Module start: [st.error(...); st.stop()] on an empty key ([None]),
    otherwise the client is built with the key. *)
Definition startup (sec : secrets_access) (env : option pystr) : option pystr :=
  match get_api_key sec env with
  | [] => None
  | k => Some k
  end.

(** ** clean_json *)

(** [s.replace(old, new)] for a non-empty [old] (the case of every call
    site): leftmost, non-overlapping occurrences; [skip] counts the
    characters of a match still to be dropped. *)
Fixpoint replace_aux (old new : pystr) (skip : nat) (s : pystr) : pystr :=
  match s with
  | [] => []
  | c :: r =>
      match skip with
      | S k => replace_aux old new k r
      | O => if is_prefix old s then new ++ replace_aux old new (List.length old - 1) r
             else c :: replace_aux old new 0 r
      end
  end.

Definition py_replace (old new s : pystr) : pystr := replace_aux old new 0 s.

Definition backtick : ascii := "`"%char.
Definition fence : pystr := str "```".
Definition fence_json : pystr := str "```json".

(** [txt.replace("```json", "").replace("```", "").strip()] *)
Definition clean_json (txt : pystr) : pystr :=
  strip (py_replace fence [] (py_replace fence_json [] txt)).

(** ** Example picker and the input box *)



(** ** Shape of the transcript *)


(** [appends P n m]: run from any log, [m] adds at most [n] calls to it,
    each satisfying [P]. *)
Definition appends {A} (P : request -> Prop) (n : nat) (m : M A) : Prop :=
  forall log, exists l, fst (m log) = log ++ l /\ List.length l <= n /\ Forall P l.

(** ** Scenario inputs *)

(** The service used in the scenarios: every call raises. *)
Definition failing_service : service := fun _ _ => Raise (APIError 503).

Definition charged_twice : pystr := str "I was charged twice by a merchant.".

Definition empty_session : session := mkSession [] [] 0.

(** ** Properties *)

(** *** Character-level facts, checked on all 256 code points *)

Lemma lower_char_idem : forall c, lower_char (lower_char c) = lower_char c.
Proof.
  intros [[] [] [] [] [] [] [] []]; vm_compute; reflexivity.
Qed.

Lemma isspace_lower_char : forall c, isspace (lower_char c) = isspace c.
Proof.
  intros [[] [] [] [] [] [] [] []]; vm_compute; reflexivity.
Qed.

(** Every line boundary is whitespace, and the space is not a boundary. *)
Lemma linebreak_isspace : forall c, is_linebreak c = true -> isspace c = true.
Proof.
  intros [[] [] [] [] [] [] [] []]; vm_compute; congruence.
Qed.

(** *** lower and collapse_ws *)

Lemma lower_idem : forall s, lower (lower s) = lower s.
Proof.
  intros s. unfold lower. rewrite map_map.
  apply map_ext. apply lower_char_idem.
Qed.

Lemma lower_collapse_ws : forall s b,
  lower (collapse_ws b s) = collapse_ws b (lower s).
Proof.
  induction s as [|c r IH]; intros b; [reflexivity|].
  simpl. rewrite isspace_lower_char.
  destruct (isspace c), b; simpl; rewrite ?IH; reflexivity.
Qed.

Lemma collapse_ws_idem : forall s b,
  collapse_ws b (collapse_ws b s) = collapse_ws b s.
Proof.
  induction s as [|c r IH]; intros b; [reflexivity|].
  simpl. destruct (isspace c) eqn:Ec.
  - destruct b; [apply IH|]. simpl. rewrite IH. reflexivity.
  - simpl. rewrite Ec, IH. reflexivity.
Qed.

Lemma collapse_ws_snoc : forall l c b, isspace c = false ->
  collapse_ws b (l ++ [c]) = collapse_ws b l ++ [c].
Proof.
  induction l as [|a l IH]; intros c b Hc; simpl.
  - rewrite Hc. reflexivity.
  - destruct (isspace a), b; simpl; rewrite IH; auto.
Qed.

(** *** Strings without surrounding whitespace *)

(** The first character, if any, is not whitespace. *)
Definition hd_ok (s : pystr) : Prop :=
  match s with [] => True | c :: _ => isspace c = false end.

Lemma lstrip_hd_ok : forall s, hd_ok s -> lstrip s = s.
Proof.
  intros [|c r]; simpl; [reflexivity|]. intros H. rewrite H. reflexivity.
Qed.

Lemma hd_ok_lstrip : forall s, hd_ok (lstrip s).
Proof.
  induction s as [|c r IH]; simpl; [exact I|].
  destruct (isspace c) eqn:E; [exact IH|exact E].
Qed.

Lemma strip_hd_ok : forall s, hd_ok s -> hd_ok (rev s) -> strip s = s.
Proof.
  intros s H1 H2. unfold strip, rstrip.
  rewrite (lstrip_hd_ok s H1), (lstrip_hd_ok _ H2), rev_involutive.
  reflexivity.
Qed.

Lemma lstrip_snoc : forall l c, isspace c = false ->
  lstrip (l ++ [c]) = lstrip l ++ [c].
Proof.
  induction l as [|a l IH]; intros c Hc; simpl.
  - rewrite Hc. reflexivity.
  - destruct (isspace a); [apply IH; exact Hc|reflexivity].
Qed.

Lemma rstrip_cons : forall c r, isspace c = false ->
  rstrip (c :: r) = c :: rstrip r.
Proof.
  intros c r Hc. unfold rstrip. simpl.
  rewrite (lstrip_snoc _ _ Hc), rev_app_distr. reflexivity.
Qed.

Lemma hd_ok_strip : forall s, hd_ok (strip s).
Proof.
  intros s. unfold strip.
  pose proof (hd_ok_lstrip s) as H.
  destruct (lstrip s) as [|c r]; [exact I|].
  rewrite (rstrip_cons _ _ H). exact H.
Qed.

Lemma hd_ok_rev_strip : forall s, hd_ok (rev (strip s)).
Proof.
  intros s. unfold strip, rstrip. rewrite rev_involutive. apply hd_ok_lstrip.
Qed.

Lemma hd_ok_lower : forall s, hd_ok s -> hd_ok (lower s).
Proof.
  intros [|c r]; simpl; [auto|]. rewrite isspace_lower_char. auto.
Qed.

Lemma hd_ok_rev_lower : forall s, hd_ok (rev s) -> hd_ok (rev (lower s)).
Proof.
  intros s H. unfold lower. rewrite <- map_rev. apply hd_ok_lower. exact H.
Qed.

Lemma hd_ok_collapse_ws : forall s, hd_ok s -> hd_ok (collapse_ws false s).
Proof.
  intros [|c r]; simpl; [auto|]. intros H. rewrite H. exact H.
Qed.

Lemma hd_ok_rev_collapse_ws : forall s b, hd_ok (rev s) -> hd_ok (rev (collapse_ws b s)).
Proof.
  intros s b H.
  destruct (rev s) as [|c u] eqn:E.
  - apply (f_equal (@rev ascii)) in E. rewrite rev_involutive in E.
    subst s. exact I.
  - apply (f_equal (@rev ascii)) in E. rewrite rev_involutive in E.
    subst s. simpl in *.
    rewrite (collapse_ws_snoc _ _ _ H), rev_app_distr. exact H.
Qed.

Lemma hd_ok_normalize : forall s,
  hd_ok (normalize_text s) /\ hd_ok (rev (normalize_text s)).
Proof.
  intros s. unfold normalize_text. split.
  - apply hd_ok_collapse_ws, hd_ok_lower, hd_ok_strip.
  - apply hd_ok_rev_collapse_ws, hd_ok_rev_lower, hd_ok_rev_strip.
Qed.

Lemma strip_normalize : forall s, strip (normalize_text s) = normalize_text s.
Proof.
  intros s. destruct (hd_ok_normalize s). apply strip_hd_ok; assumption.
Qed.

Lemma lower_normalize : forall s, lower (normalize_text s) = normalize_text s.
Proof.
  intros s. unfold normalize_text.
  rewrite lower_collapse_ws, lower_idem. reflexivity.
Qed.

(** *** Lines of a normalized string *)

Lemma collapse_ws_no_linebreak : forall s b,
  Forall (fun c => is_linebreak c = false) (collapse_ws b s).
Proof.
  induction s as [|c r IH]; intros b; simpl; [constructor|].
  destruct (isspace c) eqn:E.
  - destruct b; [apply IH|]. constructor; [reflexivity|apply IH].
  - constructor; [|apply IH].
    destruct (is_linebreak c) eqn:L; [|reflexivity].
    rewrite (linebreak_isspace c L) in E. discriminate.
Qed.

Lemma splitlines_aux_one_line : forall l cur,
  Forall (fun c => is_linebreak c = false) l -> cur ++ l <> [] ->
  splitlines_aux cur l = [rev cur ++ l].
Proof.
  induction l as [|c r IH]; intros cur Hl Hne.
  - destruct cur as [|a cur]; [contradiction|]. simpl. rewrite app_nil_r. reflexivity.
  - inversion Hl as [|? ? Hc Hr]; subst. simpl.
    destruct (Ascii.eqb_spec c "013"%char) as [->|_]; [discriminate|].
    rewrite Hc, IH by (auto; discriminate).
    simpl. rewrite <- app_assoc. reflexivity.
Qed.

Lemma splitlines_normalize : forall raw, normalize_text raw <> [] ->
  splitlines (normalize_text raw) = [normalize_text raw].
Proof.
  intros raw H. unfold splitlines.
  apply splitlines_aux_one_line; [apply collapse_ws_no_linebreak|exact H].
Qed.

(** *** parse_category *)

(** Where the normalized response is non-empty, [parse_category] is the
    single-line matcher: the splitting into lines never splits. *)
Lemma parse_category_nonempty : forall raw, normalize_text raw <> [] ->
  parse_category raw = inr (parse_category_simple raw).
Proof.
  intros raw H. unfold parse_category, parse_category_simple.
  rewrite (splitlines_normalize raw H), strip_normalize.
  destruct (py_in_list _ _); [reflexivity|].
  destruct (find _ _); reflexivity.
Qed.

(** Where the normalized response is empty, [r.splitlines()[0]] raises. *)
Lemma parse_category_empty : forall raw, normalize_text raw = [] ->
  parse_category raw = inl IndexError.
Proof.
  intros raw H. unfold parse_category. rewrite H. reflexivity.
Qed.

Lemma str_eqb_true : forall a b, str_eqb a b = true -> a = b.
Proof.
  intros a b. unfold str_eqb. destruct (list_eq_dec ascii_dec a b); congruence.
Qed.

Lemma str_eqb_refl : forall a, str_eqb a a = true.
Proof.
  intros a. unfold str_eqb. destruct (list_eq_dec ascii_dec a a); congruence.
Qed.

Lemma py_in_list_In : forall x l, py_in_list x l = true -> In x l.
Proof.
  intros x l H. unfold py_in_list in H. apply existsb_exists in H.
  destruct H as [y [Hy Heq]]. apply str_eqb_true in Heq. subst. exact Hy.
Qed.

Lemma In_py_in_list : forall x l, In x l -> py_in_list x l = true.
Proof.
  intros x l H. unfold py_in_list. apply existsb_exists.
  exists x. split; [exact H|apply str_eqb_refl].
Qed.

Lemma customer_service_allowed : In customer_service ALLOWED_CATEGORIES.
Proof. vm_compute. tauto. Qed.

Lemma parse_category_allowed : forall raw s,
  parse_category raw = inr s -> In s ALLOWED_CATEGORIES.
Proof.
  intros raw s. unfold parse_category.
  destruct (splitlines (normalize_text raw)) as [|l ls]; [discriminate|].
  destruct (py_in_list (strip l) ALLOWED_CATEGORIES) eqn:E.
  - intros H. injection H as <-. apply py_in_list_In. exact E.
  - destruct (find _ ALLOWED_CATEGORIES) as [cat|] eqn:F; intros H; injection H as <-.
    + apply find_some in F. tauto.
    + apply customer_service_allowed.
Qed.

(** No allowed category occurs inside another one, so on an exact match
    the substring scan finds the same category. *)
Lemma find_contains_allowed : forall r, In r ALLOWED_CATEGORIES ->
  find (fun cat => py_contains r cat) ALLOWED_CATEGORIES = Some r.
Proof.
  intros r H. simpl in H.
  repeat (destruct H as [<-|H]; [vm_compute; reflexivity|]). contradiction.
Qed.

(** On a response with some non-whitespace character, [parse_category]
    returns the earliest category occurring in the normalized response,
    and "customer service" when none occurs. *)
Lemma parse_category_first_occurrence : forall raw, normalize_text raw <> [] ->
  parse_category raw =
  inr (match find (fun cat => py_contains (normalize_text raw) cat) ALLOWED_CATEGORIES with
       | Some cat => cat
       | None => customer_service
       end).
Proof.
  intros raw H. rewrite (parse_category_nonempty raw H).
  unfold parse_category_simple.
  destruct (py_in_list (normalize_text raw) ALLOWED_CATEGORIES) eqn:E; [|reflexivity].
  rewrite (find_contains_allowed _ (py_in_list_In _ _ E)). reflexivity.
Qed.

(** *** Exception handling *)

(** [try: ... except Exception: return v] never raises. *)
Lemma try_with_ret_total : forall A (m : M A) (v : A) log,
  exists a log', try_with m (fun _ => ret v) log = (log', inr a).
Proof.
  intros A m v log. unfold try_with, ret.
  destruct (m log) as [log' [e|a]]; eauto.
Qed.

Lemma lstrip_blank : forall s, Forall (fun c => isspace c = true) s -> lstrip s = [].
Proof.
  intros s H. induction H as [|c r Hc _ IH]; [reflexivity|]. simpl. rewrite Hc. exact IH.
Qed.

Lemma strip_blank : forall s, Forall (fun c => isspace c = true) s -> strip s = [].
Proof.
  intros s H. unfold strip. rewrite (lstrip_blank s H). reflexivity.
Qed.

(** ** Claims *)

(** C1 (code_bug): [parse_category] is not total: on the empty response
    [r.splitlines()] is empty and [r.splitlines()[0]] raises [IndexError]. *)
Theorem parse_category_empty_raises : parse_category [] = inl IndexError.
Proof. reflexivity. Qed.

(** C2 (code_bug): on the response "change pin\ncard arrival" the first line
    "change pin", normalized and trimmed, is an allowed category, but
    [parse_category] returns "card arrival": the newline is collapsed to a
    space before the lines are split, so the first line is never looked at
    alone and the substring scan picks the earlier-listed category. *)
Theorem parse_category_first_line_ignored :
  let raw := str "change pin" ++ nl ++ str "card arrival" in
  hd_error (splitlines raw) = Some (str "change pin") /\
  py_in_list (strip (normalize_text (str "change pin"))) ALLOWED_CATEGORIES = true /\
  parse_category raw = inr (str "card arrival").
Proof. vm_compute. repeat split; reflexivity. Qed.

(** C3 (code_bug): on the response "\n" the trimmed first line "" is not
    an allowed category and no category occurs in the response, yet
    [parse_category] raises [IndexError] instead of returning
    "customer service" (same defect as C1). *)
Theorem parse_category_blank_line_raises :
  let raw := nl in
  hd_error (splitlines raw) = Some [] /\
  py_in_list (strip []) ALLOWED_CATEGORIES = false /\
  find (fun cat => py_contains (normalize_text raw) cat) ALLOWED_CATEGORIES = None /\
  parse_category raw = inl IndexError.
Proof. vm_compute. repeat split; reflexivity. Qed.

(** C4: an inquiry whose normalized form has at most two words, or is a
    greeting, is classified "customer service" with no call made (the log
    of calls is unchanged), whatever the service would do. *)
Theorem classify_intent_trivial_inquiry : forall svc inquiry log,
  (List.length (py_split (normalize_text inquiry)) <= 2 \/
   In (normalize_text inquiry) GREETINGS) ->
  classify_intent svc inquiry log = (log, inr customer_service).
Proof.
  intros svc inquiry log H. unfold classify_intent.
  replace ((List.length (py_split (normalize_text inquiry)) <=? 2) ||
           py_in_list (normalize_text inquiry) GREETINGS) with true.
  - reflexivity.
  - destruct H as [H|H].
    + apply Nat.leb_le in H. rewrite H. reflexivity.
    + rewrite (In_py_in_list _ _ H), orb_true_r. reflexivity.
Qed.

Lemma classify_intent_trivial_inquiry_witness :
  List.length (py_split (normalize_text (str "Hello there"))) <= 2 /\
  classify_intent (fun _ _ => Return [Some (str "card arrival")])
    (str "Hello there") [] = ([], inr customer_service).
Proof.
  split; [vm_compute; lia|].
  apply classify_intent_trivial_inquiry. left. vm_compute. lia.
Defined.

(** C5: [classify_intent] never raises; and when the inquiry reaches the
    completion call and that call raises, it returns "customer service". *)
Theorem classify_intent_service_error : forall svc inquiry log,
  (exists s log', classify_intent svc inquiry log = (log', inr s)) /\
  (2 < List.length (py_split (normalize_text inquiry)) ->
   ~ In (normalize_text inquiry) GREETINGS ->
   forall e log', mistral_chat svc (classify_prompt inquiry) false log = (log', inl e) ->
   classify_intent svc inquiry log = (log', inr customer_service)).
Proof.
  intros svc inquiry log. unfold classify_intent. split.
  - destruct (_ || _).
    + exists customer_service, log. reflexivity.
    + apply try_with_ret_total.
  - intros Hlen Hgreet e log' Hchat.
    replace ((List.length (py_split (normalize_text inquiry)) <=? 2) ||
             py_in_list (normalize_text inquiry) GREETINGS) with false.
    + unfold try_with, bind. rewrite Hchat. reflexivity.
    + symmetry. apply orb_false_iff. split.
      * apply Nat.leb_gt. exact Hlen.
      * destruct (py_in_list _ _) eqn:E; [|reflexivity].
        exfalso. apply Hgreet, py_in_list_In, E.
Qed.

Lemma classify_intent_service_error_witness :
  2 < List.length (py_split (normalize_text charged_twice)) /\
  ~ In (normalize_text charged_twice) GREETINGS /\
  classify_intent failing_service charged_twice [] =
    ([mkRequest (classify_prompt charged_twice) false], inr customer_service).
Proof.
  assert (Hlen : 2 < List.length (py_split (normalize_text charged_twice)))
    by (vm_compute; lia).
  assert (Hg : ~ In (normalize_text charged_twice) GREETINGS)
    by (vm_compute; intuition discriminate).
  split; [exact Hlen|]. split; [exact Hg|].
  apply (proj2 (classify_intent_service_error failing_service charged_twice []))
    with (e := APIError 503); [exact Hlen|exact Hg|].
  reflexivity.
Defined.

(** C6: the answer step never raises; for every category, when the
    completion call raises, the answer is the category's guidance text
    from [KB], verbatim. *)
Theorem compose_answer_service_error : forall svc cat inquiry log,
  (exists a log', compose_answer svc cat inquiry log = (log', inr a)) /\
  (In cat ALLOWED_CATEGORIES ->
   kb_lookup cat KB = Some (kb_get cat) /\
   forall e log', mistral_chat svc (answer_prompt (kb_get cat) inquiry) false log = (log', inl e) ->
   compose_answer svc cat inquiry log = (log', inr (kb_get cat))).
Proof.
  intros svc cat inquiry log. unfold compose_answer. split.
  - apply try_with_ret_total.
  - intros Hcat. split.
    + simpl in Hcat.
      repeat (destruct Hcat as [<-|Hcat]; [vm_compute; reflexivity|]). contradiction.
    + intros e log' Hchat. unfold try_with, bind. rewrite Hchat. reflexivity.
Qed.

Lemma compose_answer_service_error_witness :
  In customer_service ALLOWED_CATEGORIES /\
  compose_answer failing_service customer_service charged_twice [] =
    ([mkRequest (answer_prompt (str "Tell me your issue and I will guide you.") charged_twice) false],
     inr (str "Tell me your issue and I will guide you.")).
Proof.
  split; [apply customer_service_allowed|].
  apply (proj2 (proj2 (compose_answer_service_error failing_service customer_service
                         charged_twice []) customer_service_allowed))
    with (e := APIError 503).
  reflexivity.
Defined.

(** C7: [normalize_text] is idempotent, and it lower-cases, collapses
    whitespace runs to one space and trims:
    [normalize_text "  HI   there" = "hi there"]. *)
Theorem normalize_text_idempotent :
  (forall x, normalize_text (normalize_text x) = normalize_text x) /\
  normalize_text (str "  HI   there") = str "hi there".
Proof.
  split; [|vm_compute; reflexivity].
  intros x. unfold normalize_text at 1.
  rewrite strip_normalize, lower_normalize.
  unfold normalize_text. apply collapse_ws_idem.
Qed.

(** C8: sending an empty or whitespace-only message leaves the session,
    and so the transcript, unchanged, and makes no call. *)
Theorem on_send_blank_noop : forall svc send msg st log,
  Forall (fun c => isspace c = true) msg ->
  on_send svc send msg st log = (log, inr st).
Proof.
  intros svc send msg st log H. unfold on_send.
  rewrite (strip_blank msg H), andb_false_r. reflexivity.
Qed.

Lemma on_send_blank_noop_witness :
  Forall (fun c => isspace c = true) (str "  ") /\
  on_send failing_service true (str "  ") empty_session [] = ([], inr empty_session) /\
  on_send failing_service true [] empty_session [] = ([], inr empty_session).
Proof.
  assert (H : Forall (fun c => isspace c = true) (str "  "))
    by (repeat constructor).
  split; [exact H|]. split.
  - apply on_send_blank_noop. exact H.
  - apply on_send_blank_noop. constructor.
Defined.

(** C9: whatever the service does, [classify_intent] returns one of the
    seven [ALLOWED_CATEGORIES]. *)
Theorem classify_intent_allowed : forall svc inquiry log,
  exists s log', classify_intent svc inquiry log = (log', inr s) /\
                 In s ALLOWED_CATEGORIES.
Proof.
  intros svc inquiry log. unfold classify_intent.
  destruct (_ || _).
  - exists customer_service, log. split; [reflexivity|apply customer_service_allowed].
  - unfold try_with, bind.
    destruct (mistral_chat svc (classify_prompt inquiry) false log) as [log1 [e|raw]].
    + exists customer_service, log1. split; [reflexivity|apply customer_service_allowed].
    + unfold parse_content, lift, throw, ret.
      destruct raw as [s|].
      * destruct (parse_category s) as [e|cat] eqn:P.
        -- exists customer_service, log1. split; [reflexivity|apply customer_service_allowed].
        -- exists cat, log1. split; [reflexivity|].
           apply (parse_category_allowed s). exact P.
      * exists customer_service, log1. split; [reflexivity|apply customer_service_allowed].
Qed.

(** C10 (code_bug): the response " " is non-empty, but its normalized form
    is empty, so [parse_category] raises [IndexError] where the single-line
    matcher returns "customer service" (same defect as C1). *)
Theorem parse_category_simple_diverges :
  str " " <> [] /\
  parse_category (str " ") = inl IndexError /\
  parse_category_simple (str " ") = customer_service.
Proof. vm_compute. repeat split; discriminate || reflexivity. Qed.

(** Scenario of the spec: both calls raise for "I was charged twice by a
    merchant."; the user turn and a "customer service" answer carrying the
    guidance text are appended. *)
Example send_charged_twice_service_down :
  snd (on_send failing_service true charged_twice empty_session []) =
  inr (mkSession [mkTurn User charged_twice None;
                  mkTurn Assistant (str "Tell me your issue and I will guide you.")
                         (Some customer_service)] [] 1).
Proof. vm_compute. reflexivity. Qed.

(** Clearing empties the transcript. *)
Example on_clear_empties : forall st, chat_history (on_clear st) = [].
Proof. reflexivity. Qed.

(** ** Further properties of src/app.py *)

(** *** Calls to the service *)

Lemma appends_ret : forall A P n (a : A), appends P n (ret a).
Proof. intros A P n a log. exists []. rewrite app_nil_r. simpl. auto with arith. Qed.

Lemma appends_throw : forall A P n e, appends P n (@throw A e).
Proof. intros A P n e log. exists []. rewrite app_nil_r. simpl. auto with arith. Qed.

Lemma appends_lift : forall A P n (r : exn + A), appends P n (lift r).
Proof. intros A P n [e|a]; [apply appends_throw|apply appends_ret]. Qed.

Lemma appends_weaken : forall A P n k (m : M A), n <= k -> appends P n m -> appends P k m.
Proof.
  intros A P n k m Hle H log. destruct (H log) as [l [H1 [H2 H3]]].
  exists l. repeat split; auto; lia.
Qed.

Lemma appends_complete : forall P svc rq, P rq -> appends P 1 (complete svc rq).
Proof. intros P svc rq HP log. exists [rq]. simpl. auto. Qed.

Lemma appends_bind : forall A B P n k (m : M A) (f : A -> M B),
  appends P n m -> (forall a, appends P k (f a)) -> appends P (n + k) (bind m f).
Proof.
  intros A B P n k m f Hm Hf log. unfold bind.
  destruct (Hm log) as [l1 [E1 [L1 F1]]].
  destruct (m log) as [log1 [e|a]]; simpl in E1; subst log1.
  - exists l1. simpl. repeat split; auto; lia.
  - destruct (Hf a (log ++ l1)) as [l2 [E2 [L2 F2]]].
    exists (l1 ++ l2). split; [|split].
    + rewrite E2, app_assoc. reflexivity.
    + rewrite length_app. lia.
    + apply Forall_app. auto.
Qed.

Lemma appends_try_with : forall A P n k (m : M A) (h : exn -> M A),
  appends P n m -> (forall e, appends P k (h e)) -> appends P (n + k) (try_with m h).
Proof.
  intros A P n k m h Hm Hh log. unfold try_with.
  destruct (Hm log) as [l1 [E1 [L1 F1]]].
  destruct (m log) as [log1 [e|a]]; simpl in E1; subst log1.
  - destruct (Hh e (log ++ l1)) as [l2 [E2 [L2 F2]]].
    exists (l1 ++ l2). split; [|split].
    + rewrite E2, app_assoc. reflexivity.
    + rewrite length_app. lia.
    + apply Forall_app. auto.
  - exists l1. simpl. repeat split; auto; lia.
Qed.

Lemma appends_mistral_chat : forall svc p,
  appends (fun rq => rq = mkRequest p false) 2 (mistral_chat svc p false).
Proof.
  intros svc p. unfold mistral_chat.
  apply (appends_bind _ _ _ 2 0).
  - apply (appends_try_with _ _ 1 1).
    + apply appends_complete. reflexivity.
    + intros []; try apply appends_throw. apply appends_complete. reflexivity.
  - intros [|c cs]; [apply appends_throw|apply appends_ret].
Qed.

Lemma appends_parse_content : forall P n raw, appends P n (parse_content raw).
Proof. intros P n [s|]; [apply appends_lift|apply appends_throw]. Qed.

(** X2: [mistral_chat] calls the client once; only a [TypeError] on that
    call makes it call a second time, without [response_format]; any
    other error of the first call is raised unchanged. *)
Theorem mistral_chat_retry : forall svc p j log,
  (forall e, svc log (mkRequest p j) = Raise e -> e <> TypeError ->
   mistral_chat svc p j log = (log ++ [mkRequest p j], inl e)) /\
  (svc log (mkRequest p j) = Raise TypeError ->
   fst (mistral_chat svc p j log) = log ++ [mkRequest p j; mkRequest p false]) /\
  (forall cs, svc log (mkRequest p j) = Return cs ->
   fst (mistral_chat svc p j log) = log ++ [mkRequest p j]).
Proof.
  intros svc p j log. unfold mistral_chat, bind, try_with, complete.
  repeat split.
  - intros e He Hne. rewrite He.
    destruct e; [contradiction| | | |]; reflexivity.
  - intros He. rewrite He. simpl.
    destruct (svc (log ++ [mkRequest p j]) (mkRequest p false)) as [e|[|c cs]];
      simpl; rewrite <- app_assoc; reflexivity.
  - intros cs He. rewrite He. destruct cs; reflexivity.
Qed.

Lemma mistral_chat_retry_witness :
  let svc : service := fun log rq =>
    match log with [] => Raise TypeError | _ => Return [Some (str "ok")] end in
  svc [] (mkRequest (str "p") true) = Raise TypeError /\
  fst (mistral_chat svc (str "p") true []) =
    [mkRequest (str "p") true; mkRequest (str "p") false].
Proof.
  intros svc. split; [reflexivity|].
  apply (proj1 (proj2 (mistral_chat_retry svc (str "p") true []))). reflexivity.
Defined.

(** X3: a reply without choices makes [mistral_chat] raise [IndexError]
    after one call; a reply whose first message has no content is passed
    on as [None] without raising. *)
Theorem mistral_chat_empty_reply : forall svc p j log,
  (svc log (mkRequest p j) = Return [] ->
   mistral_chat svc p j log = (log ++ [mkRequest p j], inl IndexError)) /\
  (forall cs, svc log (mkRequest p j) = Return (None :: cs) ->
   mistral_chat svc p j log = (log ++ [mkRequest p j], inr None)).
Proof.
  intros svc p j log. unfold mistral_chat, bind, try_with, complete.
  split; intros; rewrite H; reflexivity.
Qed.


Lemma mistral_chat_empty_reply_witness :
  let svc : service := fun _ _ => Return [] in
  svc [] (mkRequest (str "p") false) = Return [] /\
  mistral_chat svc (str "p") false [] = ([mkRequest (str "p") false], inl IndexError).
Proof.
  intros svc. split; [reflexivity|].
  apply (proj1 (mistral_chat_empty_reply svc (str "p") false [])). reflexivity.
Defined.


Lemma appends_impl : forall A (P Q : request -> Prop) n (m : M A),
  (forall rq, P rq -> Q rq) -> appends P n m -> appends Q n m.
Proof.
  intros A P Q n m HPQ H log. destruct (H log) as [l [H1 [H2 H3]]].
  exists l. repeat split; auto. eapply Forall_impl; eauto.
Qed.

Lemma appends_classify_intent : forall svc inquiry,
  appends (fun rq => rq = mkRequest (classify_prompt inquiry) false) 2
          (classify_intent svc inquiry).
Proof.
  intros svc inquiry. unfold classify_intent.
  destruct (_ || _); [apply appends_ret|].
  apply (appends_try_with _ _ 2 0); [|intros; apply appends_ret].
  apply (appends_bind _ _ _ 2 0); [apply appends_mistral_chat|].
  intros; apply appends_parse_content.
Qed.

Lemma appends_compose_answer : forall svc cat inquiry,
  appends (fun rq => rq = mkRequest (answer_prompt (kb_get cat) inquiry) false) 2
          (compose_answer svc cat inquiry).
Proof.
  intros svc cat inquiry. unfold compose_answer.
  apply (appends_try_with _ _ 2 0); [|intros; apply appends_ret].
  apply (appends_bind _ _ _ 2 0); [apply appends_mistral_chat|].
  intros [s|]; [apply appends_ret|apply appends_throw].
Qed.

(** X5: one press of Send makes at most four calls, none in JSON mode:
    each sends the classification prompt of the stripped message, or an
    answer prompt built from a guidance text of [KB] and that message. *)
Theorem on_send_calls : forall svc send msg st,
  appends (fun rq => rq_json rq = false /\
                     (rq_prompt rq = classify_prompt (strip msg) \/
                      exists cat, rq_prompt rq = answer_prompt (kb_get cat) (strip msg)))
          4 (on_send svc send msg st).
Proof.
  intros svc send msg st. unfold on_send.
  destruct (_ && _); [|apply appends_ret].
  apply (appends_bind _ _ _ 2 2).
  - eapply appends_impl; [|apply appends_classify_intent].
    intros rq ->. simpl. auto.
  - intros cat. apply (appends_bind _ _ _ 2 0); [|intros; apply appends_ret].
    eapply appends_impl; [|apply appends_compose_answer].
    intros rq ->. simpl. eauto.
Qed.

Lemma classify_intent_in_allowed : forall svc inquiry log,
  exists s log', classify_intent svc inquiry log = (log', inr s) /\
                 In s ALLOWED_CATEGORIES.
Proof.
  intros svc inquiry log. unfold classify_intent.
  destruct (_ || _).
  - exists customer_service, log. split; [reflexivity|apply customer_service_allowed].
  - unfold try_with, bind.
    destruct (mistral_chat svc (classify_prompt inquiry) false log) as [log1 [e|[s|]]];
      unfold parse_content, lift, throw, ret;
      try (exists customer_service, log1; split; [reflexivity|apply customer_service_allowed]).
    destruct (parse_category s) as [e|cat] eqn:P.
    + exists customer_service, log1. split; [reflexivity|apply customer_service_allowed].
    + exists cat, log1. split; [reflexivity|]. apply (parse_category_allowed s). exact P.
Qed.

Lemma on_send_nonblank : forall svc msg st log,
  strip msg <> [] ->
  exists cat answer log',
    on_send svc true msg st log =
      (log', inr (mkSession (chat_history st ++ [mkTurn User (strip msg) None;
                                                  mkTurn Assistant answer (Some cat)])
                            (pending_text st) (S (draft_version st)))) /\
    In cat ALLOWED_CATEGORIES.
Proof.
  intros svc msg st log Hne. unfold on_send.
  replace (true && negb (match strip msg with [] => true | _ => false end)) with true
    by (destruct (strip msg); [contradiction|reflexivity]).
  unfold bind.
  destruct (classify_intent_in_allowed svc (strip msg) log) as [cat [log1 [E1 Hcat]]].
  rewrite E1.
  destruct (try_with_ret_total _ (a <- mistral_chat svc
              (answer_prompt (kb_get cat) (strip msg)) false;;
              match a with None => throw AttributeError | Some s => ret (strip s) end)
              (kb_get cat) log1) as [answer [log2 E2]].
  unfold compose_answer. rewrite E2.
  exists cat, answer, log2. split; [reflexivity|exact Hcat].
Qed.

(** X6: pressing Send with a message that is not blank always succeeds and
    appends exactly two turns: the stripped message as a user turn, then
    the answer as an assistant turn carrying an allowed category; the
    draft version is bumped and the pending text kept. *)
Theorem on_send_appends_exchange : forall svc msg st log,
  strip msg <> [] ->
  exists cat answer log',
    on_send svc true msg st log =
      (log', inr (mkSession (chat_history st ++ [mkTurn User (strip msg) None;
                                                  mkTurn Assistant answer (Some cat)])
                            (pending_text st) (S (draft_version st)))) /\
    In cat ALLOWED_CATEGORIES.
Proof.
  intros svc msg st log Hne. exact (on_send_nonblank svc msg st log Hne).
Qed.

Lemma on_send_appends_exchange_witness :
  strip charged_twice <> [] /\
  exists cat answer log',
    on_send failing_service true charged_twice empty_session [] =
      (log', inr (mkSession ([] ++ [mkTurn User (strip charged_twice) None;
                                    mkTurn Assistant answer (Some cat)])
                            [] 1)) /\
    In cat ALLOWED_CATEGORIES.
Proof.
  assert (H : strip charged_twice <> []) by (vm_compute; discriminate).
  split; [exact H|].
  exact (on_send_appends_exchange failing_service charged_twice empty_session [] H).
Defined.

(** *** The transcript *)




(** *** Guidance table *)

Lemma kb_lookup_key : forall k kb v, kb_lookup k kb = Some v -> In k (map fst kb).
Proof.
  intros k kb v. induction kb as [|[k' v'] kb IH]; simpl; [discriminate|].
  destruct (str_eqb k k') eqn:E.
  - intros _. left. symmetry. apply str_eqb_true. exact E.
  - intros H. right. apply IH. exact H.
Qed.

(** X9: the keys of [KB] are the allowed categories: each has its guidance,
    and any other value gets the "customer service" guidance. *)
Theorem kb_get_total : forall cat,
  (In cat ALLOWED_CATEGORIES -> kb_lookup cat KB = Some (kb_get cat)) /\
  (~ In cat ALLOWED_CATEGORIES ->
   kb_lookup cat KB = None /\ kb_get cat = str "Tell me your issue and I will guide you.").
Proof.
  intros cat. split.
  - intros Hcat. simpl in Hcat.
    repeat (destruct Hcat as [<-|Hcat]; [vm_compute; reflexivity|]). contradiction.
  - intros Hn.
    assert (HN : kb_lookup cat KB = None).
    { destruct (kb_lookup cat KB) eqn:E; [|reflexivity].
      exfalso. apply Hn. apply kb_lookup_key in E. exact E. }
    split; [exact HN|]. unfold kb_get. rewrite HN. reflexivity.
Qed.

Lemma kb_get_total_witness :
  ~ In (str "refund") ALLOWED_CATEGORIES /\
  kb_get (str "refund") = str "Tell me your issue and I will guide you.".
Proof.
  assert (H : ~ In (str "refund") ALLOWED_CATEGORIES)
    by (vm_compute; intuition discriminate).
  split; [exact H|]. exact (proj2 (proj2 (kb_get_total (str "refund")) H)).
Defined.

(** *** API key *)

(** X1: a key present in [st.secrets] is used even when blank, so a blank
    secret stops the app although the environment variable is set;
    unreadable secrets are treated like a missing key; with neither a
    secret nor the environment variable the app stops. *)
Theorem startup_key_source :
  (forall v env, strip v = [] -> startup (SecretsHasKey v) env = None) /\
  (forall e env, startup (SecretsUnavailable e) env = startup SecretsMissingKey env) /\
  (forall sec, (forall v, sec <> SecretsHasKey v) -> startup sec None = None).
Proof.
  split; [|split].
  - intros v env H. unfold startup, get_api_key. rewrite H. reflexivity.
  - reflexivity.
  - intros [e| |v] H; try reflexivity. exfalso. exact (H v eq_refl).
Qed.

Lemma startup_key_source_witness :
  strip (str "  ") = [] /\
  startup (SecretsHasKey (str "  ")) (Some (str "sk-123")) = None /\
  startup SecretsMissingKey (Some (str "sk-123")) = Some (str "sk-123").
Proof.
  assert (H : strip (str "  ") = []) by reflexivity.
  split; [exact H|]. split; [|reflexivity].
  exact (proj1 startup_key_source _ _ H).
Defined.

(** *** Normalized text and words *)

Lemma collapse_ws_spaces : forall s b,
  Forall (fun c => isspace c = true -> c = " "%char) (collapse_ws b s).
Proof.
  induction s as [|c r IH]; intros b; simpl; [constructor|].
  destruct (isspace c) eqn:E.
  - destruct b; [apply IH|]. constructor; [reflexivity|apply IH].
  - constructor; [congruence|apply IH].
Qed.

Lemma collapse_ws_no_adjacent : forall s b,
  (b = true -> hd_ok (collapse_ws b s)) /\
  (forall x y a c, collapse_ws b s = x ++ a :: c :: y ->
                   isspace a = false \/ isspace c = false).
Proof.
  induction s as [|c0 r IH]; intros b; simpl.
  - split; [intros; exact I|]. intros [|x0 x] y a c H; discriminate.
  - destruct (isspace c0) eqn:E.
    + destruct b.
      * exact (IH true).
      * split; [discriminate|]. destruct (IH true) as [Hhd Hadj].
        intros [|x0 x] y a c H; simpl in H; injection H as H1 H2.
        -- right. specialize (Hhd eq_refl). rewrite H2 in Hhd. exact Hhd.
        -- eapply Hadj. exact H2.
    + split; [intros _; exact E|]. destruct (IH false) as [_ Hadj].
      intros [|x0 x] y a c H; simpl in H; injection H as H1 H2.
      * left. rewrite <- H1. exact E.
      * eapply Hadj. exact H2.
Qed.

(** X10: normalized text has no whitespace at either end, its only
    whitespace character is the space, and no two whitespace characters
    are adjacent. *)
Theorem normalize_text_shape : forall s,
  let n := normalize_text s in
  hd_ok n /\ hd_ok (rev n) /\
  Forall (fun c => isspace c = true -> c = " "%char) n /\
  (forall x y a c, n = x ++ a :: c :: y -> isspace a = false \/ isspace c = false).
Proof.
  intros s n. destruct (hd_ok_normalize s) as [H1 H2].
  split; [exact H1|]. split; [exact H2|]. split.
  - apply collapse_ws_spaces.
  - apply (proj2 (collapse_ws_no_adjacent _ false)).
Qed.

Lemma split_aux_lower : forall s cur,
  split_aux (map lower_char cur) (map lower_char s) = map lower (split_aux cur s).
Proof.
  induction s as [|c r IH]; intros cur; simpl.
  - destruct cur as [|a cur]; [reflexivity|]. simpl. unfold lower.
    rewrite map_app, map_rev. reflexivity.
  - rewrite isspace_lower_char. destruct (isspace c).
    + pose proof (IH []) as IH0. simpl in IH0.
      destruct cur as [|a cur]; simpl; rewrite IH0; [reflexivity|].
      unfold lower. rewrite map_app, map_rev. reflexivity.
    + apply (IH (c :: cur)).
Qed.

Lemma split_aux_lstrip : forall s, split_aux [] (lstrip s) = split_aux [] s.
Proof.
  induction s as [|c r IH]; simpl; [reflexivity|].
  destruct (isspace c) eqn:E; [exact IH|]. simpl. rewrite E. reflexivity.
Qed.

Lemma split_aux_snoc_space : forall s cur c, isspace c = true ->
  split_aux cur (s ++ [c]) = split_aux cur s.
Proof.
  induction s as [|a s IH]; intros cur c Hc; simpl.
  - rewrite Hc. destruct cur; reflexivity.
  - destruct (isspace a); [destruct cur|]; rewrite ?IH by exact Hc; reflexivity.
Qed.

Lemma split_aux_app_spaces : forall w s cur, Forall (fun c => isspace c = true) w ->
  split_aux cur (s ++ rev w) = split_aux cur s.
Proof.
  induction w as [|a w IH]; intros s cur Hw; simpl; [rewrite app_nil_r; reflexivity|].
  inversion Hw; subst. rewrite app_assoc, split_aux_snoc_space by assumption.
  apply IH. assumption.
Qed.

Lemma lstrip_decomp : forall s, exists w,
  s = w ++ lstrip s /\ Forall (fun c => isspace c = true) w.
Proof.
  induction s as [|c r IH]; simpl; [exists []; auto|].
  destruct (isspace c) eqn:E.
  - destruct IH as [w [H1 H2]]. exists (c :: w). simpl. rewrite <- H1. auto.
  - exists []. auto.
Qed.

Lemma rstrip_decomp : forall s, exists w,
  s = rstrip s ++ rev w /\ Forall (fun c => isspace c = true) w.
Proof.
  intros s. destruct (lstrip_decomp (rev s)) as [w [H1 H2]].
  exists w. split; [|exact H2]. unfold rstrip.
  rewrite <- rev_app_distr, <- H1, rev_involutive. reflexivity.
Qed.

Lemma split_aux_rstrip : forall s, split_aux [] (rstrip s) = split_aux [] s.
Proof.
  intros s. destruct (rstrip_decomp s) as [w [H1 H2]].
  rewrite H1 at 2. symmetry. apply split_aux_app_spaces. exact H2.
Qed.

Lemma split_aux_collapse_ws : forall s cur b, (b = true -> cur = []) ->
  split_aux cur (collapse_ws b s) = split_aux cur s.
Proof.
  induction s as [|c r IH]; intros cur b Hb; simpl; [reflexivity|].
  destruct (isspace c) eqn:E.
  - destruct b.
    + rewrite (Hb eq_refl). apply IH. reflexivity.
    + simpl. destruct cur; rewrite IH; reflexivity.
  - simpl. rewrite E. apply IH. discriminate.
Qed.

(** X11: the words of the normalized inquiry are the lower-cased words of
    the inquiry; in particular the "at most two words" test of
    [classify_intent] counts the words of the raw inquiry. *)
Theorem py_split_normalize_text : forall s,
  py_split (normalize_text s) = map lower (py_split s) /\
  List.length (py_split (normalize_text s)) = List.length (py_split s).
Proof.
  intros s.
  assert (H : py_split (normalize_text s) = map lower (py_split s)).
  { unfold py_split, normalize_text.
    rewrite split_aux_collapse_ws by discriminate.
    unfold lower. rewrite (split_aux_lower _ []).
    unfold strip. rewrite split_aux_rstrip, split_aux_lstrip. reflexivity. }
  split; [exact H|]. rewrite H, length_map. reflexivity.
Qed.

Lemma normalize_text_idem : forall x, normalize_text (normalize_text x) = normalize_text x.
Proof.
  intros x. unfold normalize_text at 1.
  rewrite strip_normalize, lower_normalize.
  unfold normalize_text. apply collapse_ws_idem.
Qed.

(** X12: [parse_category] depends only on the normalized response: case,
    surrounding whitespace and the kind and length of whitespace runs
    never change the category. *)
Theorem parse_category_normalized : forall raw,
  parse_category raw = parse_category (normalize_text raw).
Proof.
  intros raw. unfold parse_category at 2. rewrite normalize_text_idem. reflexivity.
Qed.

(** *** clean_json *)

Lemma is_prefix_self : forall p x, is_prefix p (p ++ x) = true.
Proof.
  induction p as [|a p IH]; intros x; simpl; [reflexivity|].
  rewrite Ascii.eqb_refl, IH. reflexivity.
Qed.

Lemma replace_aux_skip : forall old new p x,
  replace_aux old new (List.length p) (p ++ x) = replace_aux old new 0 x.
Proof. induction p as [|a p IH]; intros x; simpl; [reflexivity|apply IH]. Qed.

Lemma replace_aux_match : forall o old new x, old = backtick :: o ->
  replace_aux old new 0 (old ++ x) = new ++ replace_aux old new 0 x.
Proof.
  intros o old new x ->.
  pose proof (is_prefix_self (backtick :: o) x) as H.
  cbn [replace_aux app List.length] in *. rewrite H. f_equal.
  rewrite Nat.sub_succ, Nat.sub_0_r. apply replace_aux_skip.
Qed.

Lemma replace_aux_no_backtick : forall o old new s t, old = backtick :: o ->
  ~ In backtick s ->
  replace_aux old new 0 (s ++ t) = s ++ replace_aux old new 0 t.
Proof.
  intros o old new s t ->. induction s as [|c s IH]; intros Hs; [reflexivity|].
  assert (Hc : Ascii.eqb backtick c = false).
  { apply Ascii.eqb_neq. intros E. apply Hs. left. symmetry. exact E. }
  cbn [app replace_aux is_prefix]. rewrite Hc. cbn [andb]. f_equal.
  apply IH. intros H. apply Hs. right. exact H.
Qed.

Lemma lstrip_spaces_app : forall w x, Forall (fun c => isspace c = true) w ->
  lstrip (w ++ x) = lstrip x.
Proof.
  intros w x H. induction H as [|c w Hc _ IH]; [reflexivity|]. simpl. rewrite Hc. exact IH.
Qed.

Lemma strip_surrounded : forall w1 b w2,
  Forall (fun c => isspace c = true) w1 -> Forall (fun c => isspace c = true) w2 ->
  strip b = b -> strip (w1 ++ b ++ w2) = b.
Proof.
  intros w1 b w2 H1 H2 Hb.
  assert (Hh : hd_ok b) by (rewrite <- Hb; apply hd_ok_strip).
  assert (Hr : hd_ok (rev b)) by (rewrite <- Hb; apply hd_ok_rev_strip).
  unfold strip. rewrite (lstrip_spaces_app _ _ H1).
  destruct b as [|c b'].
  - simpl. rewrite (lstrip_blank _ H2). reflexivity.
  - simpl in Hh. cbn [app lstrip]. rewrite Hh.
    change (c :: b' ++ w2) with ((c :: b') ++ w2). unfold rstrip.
    rewrite rev_app_distr, lstrip_spaces_app
      by (apply Forall_rev; exact H2).
    rewrite (lstrip_hd_ok _ Hr), rev_involutive. reflexivity.
Qed.

(** X13: [clean_json] unwraps a fenced block: on "```json\n" ++ body ++ "\n```"
    it returns [body], for a body without backticks or surrounding
    whitespace. *)
Theorem clean_json_unwraps_fence : forall body,
  ~ In backtick body -> strip body = body ->
  clean_json (fence_json ++ nl ++ body ++ nl ++ fence) = body.
Proof.
  intros body Hb Hs. unfold clean_json, py_replace.
  rewrite (replace_aux_match (str "``json")) by reflexivity.
  assert (Hnl : ~ In backtick nl) by (simpl; intros [H|[]]; discriminate).
  assert (Hmid : ~ In backtick (nl ++ body ++ nl)).
  { intros H. apply in_app_or in H as [H|H]; [exact (Hnl H)|].
    apply in_app_or in H as [H|H]; [exact (Hb H)|exact (Hnl H)]. }
  rewrite app_nil_l, !app_assoc, (replace_aux_no_backtick (str "``json")) by auto.
  replace (replace_aux fence_json [] 0 fence) with fence by reflexivity.
  rewrite (replace_aux_no_backtick (str "``")) by auto.
  rewrite <- (app_nil_r fence), (replace_aux_match (str "``")) by reflexivity.
  simpl replace_aux. rewrite !app_nil_r, <- app_assoc.
  apply strip_surrounded; [repeat constructor|repeat constructor|exact Hs].
Qed.

Lemma clean_json_unwraps_fence_witness :
  ~ In backtick (str "{}") /\ strip (str "{}") = str "{}" /\
  clean_json (fence_json ++ nl ++ str "{}" ++ nl ++ fence) = str "{}".
Proof.
  assert (H1 : ~ In backtick (str "{}")) by (vm_compute; intuition discriminate).
  assert (H2 : strip (str "{}") = str "{}") by reflexivity.
  split; [exact H1|]. split; [exact H2|].
  exact (clean_json_unwraps_fence _ H1 H2).
Defined.

Lemma fence_eq : fence = [backtick; backtick; backtick].
Proof. reflexivity. Qed.

Lemma is_prefix_cons : forall a p c r,
  is_prefix (a :: p) (c :: r) = Ascii.eqb a c && is_prefix p r.
Proof. reflexivity. Qed.

Lemma replace_fence_triple : forall t,
  replace_aux fence [] 0 (backtick :: backtick :: backtick :: t) = replace_aux fence [] 0 t.
Proof.
  intros t. exact (replace_aux_match [backtick; backtick] fence [] t eq_refl).
Qed.

Lemma replace_fence_other : forall c r, is_prefix fence (c :: r) = false ->
  replace_aux fence [] 0 (c :: r) = c :: replace_aux fence [] 0 r.
Proof. intros c r H. cbn [replace_aux]. rewrite H. reflexivity. Qed.

Lemma replace_fence_no_fence : forall n s, List.length s <= n ->
  let o := replace_aux fence [] 0 s in
  py_contains o fence = false /\
  (is_prefix [backtick; backtick] s = false -> is_prefix [backtick; backtick] o = false) /\
  (is_prefix [backtick] s = false -> is_prefix [backtick] o = false).
Proof.
  induction n as [|n IH]; intros s Hlen o; subst o.
  - destruct s; [|simpl in Hlen; lia]. repeat split; reflexivity.
  - destruct s as [|c r]; [repeat split; reflexivity|].
    destruct (is_prefix fence (c :: r)) eqn:P.
    + rewrite fence_eq, is_prefix_cons in P.
      destruct (Ascii.eqb_spec backtick c) as [<-|]; [|discriminate].
      rewrite andb_true_l in P.
      destruct r as [|c1 [|c2 t]]; [discriminate| |].
      { rewrite is_prefix_cons in P. cbn [is_prefix] in P.
        rewrite andb_false_r in P. discriminate. }
      rewrite !is_prefix_cons in P.
      destruct (Ascii.eqb_spec backtick c1) as [<-|]; [|discriminate].
      destruct (Ascii.eqb_spec backtick c2) as [<-|]; [|discriminate].
      rewrite replace_fence_triple.
      simpl in Hlen. destruct (IH t ltac:(lia)) as [H1 _].
      split; [exact H1|].
      rewrite !is_prefix_cons, Ascii.eqb_refl. split; discriminate.
    + rewrite (replace_fence_other c r P).
      simpl in Hlen. destruct (IH r ltac:(lia)) as [H1 [H2 H3]].
      set (orr := replace_aux fence [] 0 r) in *.
      rewrite fence_eq in P |- *. rewrite is_prefix_cons in P.
      destruct (Ascii.eqb_spec backtick c) as [<-|Hne].
      * rewrite andb_true_l in P.
        split; [|split].
        -- cbn [py_contains]. rewrite is_prefix_cons, Ascii.eqb_refl, andb_true_l.
           rewrite (H2 P). rewrite fence_eq in H1. exact H1.
        -- rewrite !is_prefix_cons, Ascii.eqb_refl, !andb_true_l.
           intros Hp. apply H3. exact Hp.
        -- rewrite !is_prefix_cons, Ascii.eqb_refl. discriminate.
      * assert (Hf : Ascii.eqb backtick c = false) by (apply Ascii.eqb_neq; exact Hne).
        split; [|split].
        -- cbn [py_contains]. rewrite is_prefix_cons, Hf, andb_false_l.
           rewrite fence_eq in H1. exact H1.
        -- intros _. rewrite is_prefix_cons, Hf. reflexivity.
        -- intros _. rewrite is_prefix_cons, Hf. reflexivity.
Qed.

Lemma is_prefix_app_r : forall p y z, is_prefix p y = true -> is_prefix p (y ++ z) = true.
Proof.
  induction p as [|a p IH]; intros [|c y] z H; simpl in *; try discriminate; auto.
  apply andb_true_iff in H as [H1 H2]. rewrite H1. simpl. apply IH. exact H2.
Qed.

Lemma py_contains_app_r : forall y z p, py_contains y p = true -> py_contains (y ++ z) p = true.
Proof.
  induction y as [|a y IH]; intros z p H; simpl in *.
  - destruct p as [|a p]; [destruct z; reflexivity|discriminate].
  - apply orb_true_iff in H as [H|H].
    + pose proof (is_prefix_app_r p (a :: y) z H) as H'. simpl in H'.
      rewrite H'. reflexivity.
    + rewrite (IH z p H), orb_true_r. reflexivity.
Qed.

Lemma py_contains_app_l : forall x y p, py_contains y p = true -> py_contains (x ++ y) p = true.
Proof.
  induction x as [|a x IH]; intros y p H; simpl; [exact H|].
  rewrite (IH y p H), orb_true_r. reflexivity.
Qed.

Lemma strip_infix : forall s, exists a b, s = a ++ strip s ++ b.
Proof.
  intros s. destruct (lstrip_decomp s) as [w1 [H1 _]].
  destruct (rstrip_decomp (lstrip s)) as [w2 [H2 _]].
  exists w1, (rev w2). unfold strip. rewrite <- H2. exact H1.
Qed.

(** X14: the output of [clean_json] never contains "```": every run of
    backticks left after the replacements is shorter than three. *)
Theorem clean_json_no_fence : forall txt, py_contains (clean_json txt) fence = false.
Proof.
  intros txt. unfold clean_json, py_replace.
  set (o := replace_aux fence [] 0 (replace_aux fence_json [] 0 txt)).
  assert (Ho : py_contains o fence = false)
    by (apply (replace_fence_no_fence _ _ (le_n _))).
  destruct (strip_infix o) as [a [b E]].
  destruct (py_contains (strip o) fence) eqn:C; [|reflexivity].
  exfalso. apply (py_contains_app_r _ b) in C. apply (py_contains_app_l a) in C.
  rewrite <- E, Ho in C. discriminate.
Qed.

Lemma normalize_text_shape_witness :
  normalize_text (str " A  b") = [ "a"%char ] ++ " "%char :: "b"%char :: [] /\
  (isspace " "%char = false \/ isspace "b"%char = false).
Proof.
  assert (H : normalize_text (str " A  b") = [ "a"%char ] ++ " "%char :: "b"%char :: [])
    by reflexivity.
  split; [exact H|].
  exact (proj2 (proj2 (proj2 (normalize_text_shape (str " A  b")))) _ _ _ _ H).
Defined.
